(** * daily_paper_bot: keyword classifier, grouper and report renderer

    A shallow embedding of [daily_paper_bot.py].  Python strings are
    sequences of Unicode code points, dictionaries keep insertion order and
    have unique keys, and subscripting a missing key raises: strings are
    lists of code points, dictionaries are association lists updated in
    place, and a raised exception is [None] in the option monad. *)

From Stdlib Require Import String Ascii List NArith ZArith Bool Lia Permutation.
Import ListNotations.

(** ** Strings *)

(** A character is its code point; [str] is Python's [str]. *)
Definition char := N.
Definition str := list char.

Local Open Scope N_scope.

(** The code points of a UTF-8 byte sequence, so that the literals of the
    script (whose file is UTF-8) can be written as they stand there. *)
Fixpoint utf8_decode (bs : list N) : str :=
  match bs with
  | [] => []
  | b0 :: r0 =>
      if b0 <? 0x80 then b0 :: utf8_decode r0
      else if b0 <? 0xE0 then
        match r0 with
        | b1 :: r1 =>
            (N.shiftl (N.land b0 0x1F) 6 + N.land b1 0x3F) :: utf8_decode r1
        | _ => []
        end
      else if b0 <? 0xF0 then
        match r0 with
        | b1 :: b2 :: r2 =>
            (N.shiftl (N.land b0 0x0F) 12 + N.shiftl (N.land b1 0x3F) 6
             + N.land b2 0x3F) :: utf8_decode r2
        | _ => []
        end
      else
        match r0 with
        | b1 :: b2 :: b3 :: r3 =>
            (N.shiftl (N.land b0 0x07) 18 + N.shiftl (N.land b1 0x3F) 12
             + N.shiftl (N.land b2 0x3F) 6 + N.land b3 0x3F) :: utf8_decode r3
        | _ => []
        end
  end.

(** A string literal of the script. *)
Definition u (s : string) : str :=
  utf8_decode (map N_of_ascii (list_ascii_of_string s)).
Arguments u s%_string.

(** ['\n'] (Rocq's literals have no escapes). *)
Definition NL : char := 10.

Fixpoint str_eqb (a b : str) : bool :=
  match a, b with
  | [], [] => true
  | c :: a', d :: b' => (c =? d) && str_eqb a' b'
  | _, _ => false
  end.

(** [text.startswith(p)] *)
Fixpoint startswith (text p : str) {struct p} : bool :=
  match p, text with
  | [], _ => true
  | c :: p', d :: text' => (c =? d) && startswith text' p'
  | _ :: _, [] => false
  end.

(** [kw in text]: [kw] starts at some position of [text]. *)
Fixpoint contains (text kw : str) : bool :=
  startswith text kw
  || match text with
     | [] => false
     | _ :: text' => contains text' kw
     end.

(** What [kw in text] means: [kw] is a contiguous part of [text]. *)
Definition occurs (kw text : str) : Prop :=
  exists pre post, text = pre ++ kw ++ post.

(** *** [str.lower] *)

Definition is_ascii (c : char) : bool := c <? 128.

Definition ascii_lower (c : char) : char :=
  if (65 <=? c) && (c <=? 90) then c + 32 else c.

(** *** [str.replace], [str.strip], [str.join] *)

(** [text.replace(old, new)] for a one-character [old]. *)
Definition replace (text : str) (old : char) (new : str) : str :=
  flat_map (fun c => if c =? old then new else [c]) text.

(** [str.isspace] of one character: the code points with the Unicode
    White_Space property or a bidirectional type of WS, B or S. *)
Definition isspace (c : char) : bool :=
  ((0x09 <=? c) && (c <=? 0x0D))
  || ((0x1C <=? c) && (c <=? 0x20))
  || (c =? 0x85) || (c =? 0xA0) || (c =? 0x1680)
  || ((0x2000 <=? c) && (c <=? 0x200A))
  || (c =? 0x2028) || (c =? 0x2029) || (c =? 0x202F)
  || (c =? 0x205F) || (c =? 0x3000).

Fixpoint lstrip (s : str) : str :=
  match s with
  | [] => []
  | c :: s' => if isspace c then lstrip s' else s
  end.

Fixpoint rstrip (s : str) : str :=
  match s with
  | [] => []
  | c :: s' =>
      match rstrip s' with
      | [] => if isspace c then [] else [c]
      | r => c :: r
      end
  end.

(** [s.strip()] *)
Definition strip (s : str) : str := rstrip (lstrip s).

(** [sep.join(parts)] *)
Fixpoint join (sep : str) (parts : list str) : str :=
  match parts with
  | [] => []
  | [p] => p
  | p :: rest => p ++ sep ++ join sep rest
  end.

Local Close Scope N_scope.

(** ** Exceptions and dictionaries *)

Definition bind {A B} (m : option A) (k : A -> option B) : option B :=
  match m with
  | Some a => k a
  | None => None
  end.

Notation "x <- m ;; k" := (bind m (fun x => k))
  (at level 61, m at next level, right associativity).

(** A [dict] with [str] keys, in insertion order. *)
Definition dict (V : Type) := list (str * V).

Definition dict_keys {V} (d : dict V) : list str := map fst d.

(** [d.get(k)]; [d[k]] is the same with [None] read as [KeyError]. *)
Fixpoint dict_get {V} (d : dict V) (k : str) : option V :=
  match d with
  | [] => None
  | (k', v) :: d' => if str_eqb k' k then Some v else dict_get d' k
  end.

(** [d[k] = v]: the value of an existing key is replaced where it stands, a
    new key goes last. *)
Fixpoint dict_set {V} (d : dict V) (k : str) (v : V) : dict V :=
  match d with
  | [] => [(k, v)]
  | (k', v') :: d' =>
      if str_eqb k' k then (k', v) :: d' else (k', v') :: dict_set d' k v
  end.

(** [{k: f(k) for k in keys}] *)
Definition dict_comp {V} (f : str -> V) (keys : list str) : dict V :=
  fold_left (fun d k => dict_set d k (f k)) keys [].

(** ** Configuration (lines 12-28) *)

Definition HARDWARE : str := u "🛠 Hardware & Materials".
Definition ALGORITHMS : str := u "🧠 Algorithms & Theory".
Definition APPLICATIONS : str := u "👁️ Applications & Sensing".
(** The key of lines 49, 70 and 93. *)
Definition UNCATEGORIZED : str := u "📂 General / Uncategorized".

Definition CATEGORIES : dict (list str) :=
  [ (HARDWARE,
     map u
       [ "memristor"; "rram"; "pcm"; "device"; "material"; "circuit"; "cmos";
         "transistor"; "fpga"; "accelerator"; "chip"; "integrated"; "hardware";
         "synaptic device"; "crossbar"; "conductance" ]%string);
    (ALGORITHMS,
     map u
       [ "plasticity"; "stdp"; "learning rule"; "backpropagation"; "dynamics";
         "bifurcation"; "chaos"; "neuron model"; "snn"; "spiking"; "theory";
         "optimization"; "encoding"; "decoding"; "information"; "liquid state"
       ]%string);
    (APPLICATIONS,
     map u
       [ "vision"; "camera"; "dvs"; "event-based"; "sensor"; "tactile"; "skin";
         "robot"; "recognition"; "classification"; "detection"; "tracking";
         "audio"; "speech"; "gesture"; "uav"; "drone" ]%string) ].

(** ** [clean_text] (lines 30-32) *)

Definition clean_text (text : str) : str :=
  strip (replace text NL (u " ")).

Section Bot.

(** ** [classify_paper] (lines 34-50) *)

(** [str.lower] of a string that has a character outside ASCII: the case
    mapping of the Unicode character database, which is CPython's and not
    the script's. *)
Variable unicode_lower : str -> str.

(** [s.lower()]: CPython lowers an all-ASCII string byte by byte and hands
    every other string to the Unicode case mapping. *)
Definition lower (s : str) : str :=
  if forallb is_ascii s then map ascii_lower s else unicode_lower s.

(** Lines 40-42, the loop over the keywords of one category. *)
Fixpoint score_keywords (text cat : str) (keywords : list str)
    (scores : dict Z) : option (dict Z) :=
  match keywords with
  | [] => Some scores
  | kw :: keywords' =>
      if contains text kw then
        v <- dict_get scores cat ;;
        score_keywords text cat keywords' (dict_set scores cat (v + 1)%Z)
      else score_keywords text cat keywords' scores
  end.

(** Lines 39-42, the loop over [CATEGORIES.items()]. *)
Fixpoint score_categories (text : str) (items : dict (list str))
    (scores : dict Z) : option (dict Z) :=
  match items with
  | [] => Some scores
  | (cat, keywords) :: items' =>
      scores' <- score_keywords text cat keywords scores ;;
      score_categories text items' scores'
  end.

(** Lines 37-42: [scores] when the loops are done. *)
Definition compute_scores (text : str) : option (dict Z) :=
  let scores := dict_comp (fun _ => 0%Z) (dict_keys CATEGORIES) in
  score_categories text CATEGORIES scores.

(** [a > b] on values that are an [int] or Python's [None]; comparing with
    [None] raises [TypeError]. *)
Definition py_gt (a b : option Z) : option bool :=
  match a, b with
  | Some x, Some y => Some (x >? y)%Z
  | _, _ => None
  end.

(** The loop of the builtin [max]: a later item replaces the running
    maximum only when its key is strictly greater. *)
Fixpoint max_loop (key : str -> option Z) (maxitem : str) (maxval : option Z)
    (items : list str) : option str :=
  match items with
  | [] => Some maxitem
  | item :: items' =>
      let val := key item in
      gt <- py_gt val maxval ;;
      if gt then max_loop key item val items'
      else max_loop key maxitem maxval items'
  end.

(** [max(iterable, key=key)]; an empty iterable raises [ValueError]. *)
Definition py_max (iterable : list str) (key : str -> option Z) : option str :=
  match iterable with
  | [] => None
  | item :: items' => max_loop key item (key item) items'
  end.

Definition classify_paper (title summary : str) : option str :=
  let text := lower (title ++ u " " ++ summary) in
  scores <- compute_scores text ;;
  best_cat <- py_max (dict_keys scores) (dict_get scores) ;;
  best <- dict_get scores best_cat ;;
  if (best =? 0)%Z then Some UNCATEGORIZED else Some best_cat.

(** ** [main] (lines 52-123) *)

(** The types of the arxiv client: a [datetime] with its [strftime], an
    author, a search result. *)
Variable datetime : Type.
Variable strftime : datetime -> str -> str.

Record Author := { name : str }.

Record Result := {
  title : str;
  summary : str;
  entry_id : str;
  published : datetime;
  authors : list Author
}.

Definition display_order : list str :=
  [HARDWARE; ALGORITHMS; APPLICATIONS; UNCATEGORIZED].

(** Lines 69-76.  Every bucket starts as a list of its own, so appending
    to one bucket is an update of that key alone. *)
Definition group_step (paper_groups : dict (list Result)) (result : Result)
    : option (dict (list Result)) :=
  cat <- classify_paper (title result) (summary result) ;;
  bucket <- dict_get paper_groups cat ;;
  Some (dict_set paper_groups cat (bucket ++ [result])).

Fixpoint group_loop (results : list Result) (paper_groups : dict (list Result))
    : option (dict (list Result)) :=
  match results with
  | [] => Some paper_groups
  | result :: results' =>
      paper_groups' <- group_step paper_groups result ;;
      group_loop results' paper_groups'
  end.

Definition group_papers (results : list Result) : option (dict (list Result)) :=
  let paper_groups := dict_comp (fun _ => []) (dict_keys CATEGORIES) in
  let paper_groups := dict_set paper_groups UNCATEGORIZED [] in
  group_loop results paper_groups.

(** Lines 105-109. *)
Definition author_str (authors : list str) : str :=
  if (3 <? length authors)%nat
  then join (u ", ") (firstn 3 authors) ++ u " et al."
  else join (u ", ") authors.

(** Lines 104-115: what one paper appends to [md_content]. *)
Definition render_paper (md_content : str) (p : Result) : str :=
  let pub_date := strftime (published p) (u "%Y-%m-%d") in
  let authors := map name (authors p) in
  let author_str := author_str authors in
  let summary := clean_text (summary p) in
  let md_content :=
    md_content ++ u "### [" ++ title p ++ u "](" ++ entry_id p ++ u ")" ++ [NL] in
  let md_content :=
    md_content ++ u "**" ++ pub_date ++ u "** | *" ++ author_str ++ u "*"
    ++ [NL; NL] in
  md_content ++ u "> " ++ summary ++ [NL; NL].

(** Lines 95-117, the loop over [display_order]. *)
Fixpoint render_categories (paper_groups : dict (list Result))
    (order : list str) (md_content : str) : str :=
  match order with
  | [] => md_content
  | category :: order' =>
      let papers :=
        match dict_get paper_groups category with
        | Some papers => papers
        | None => []
        end in
      match papers with
      | [] => render_categories paper_groups order' md_content
      | _ :: _ =>
          let md_content := md_content ++ u "## " ++ category ++ [NL; NL] in
          let md_content := fold_left render_paper papers md_content in
          let md_content := md_content ++ u "---" ++ [NL; NL] in
          render_categories paper_groups order' md_content
      end
  end.

(** The script from the search results and the clock to the text written to
    README.md; the progress lines it prints are left out. *)
Definition main (results : list Result) (utc_now : datetime) : option str :=
  paper_groups <- group_papers results ;;
  let formatted_time := strftime utc_now (u "%Y-%m-%d %H:%M UTC") in
  let md_content := u "# 🧠 Open Neuromorphic - Daily ArXiv" ++ [NL; NL] in
  let md_content :=
    md_content ++ u "**Automated Daily Update** | Last Run: " ++ formatted_time
    ++ [NL; NL] in
  let md_content :=
    md_content
    ++ u "Papers are automatically categorized by topic and sorted by date."
    ++ [NL; NL] in
  match results with
  | [] =>
      let md_content :=
        md_content ++ u "### 😴 No new papers found today." ++ [NL] in
      Some (md_content ++ u "Check back tomorrow!")
  | _ :: _ => Some (render_categories paper_groups display_order md_content)
  end.

(** ** Vocabulary of the specification *)

(** The text the classifier matches against (line 36). *)
Definition match_text (title summary : str) : str :=
  lower (title ++ u " " ++ summary).

(** How many keywords of a list occur in the text, each counted once. *)
Definition count_matches (text : str) (keywords : list str) : Z :=
  Z.of_nat (length (filter (contains text) keywords)).

(** A category with its score. *)
Definition counted (text : str) (item : str * list str) : str * Z :=
  (fst item, count_matches text (snd item)).

(** [k], with value [v], is the first entry of [d] that has the greatest
    value: the entries before it are strictly smaller, those after it are
    not greater. *)
Definition first_max (d : dict Z) (k : str) (v : Z) : Prop :=
  exists pre post,
    d = pre ++ (k, v) :: post
    /\ (forall k' v', In (k', v') pre -> (v' < v)%Z)
    /\ (forall k' v', In (k', v') post -> (v' <= v)%Z).

(** The tie-break rule read without a condition on the score: whenever
    [a] is the first category to attain the greatest score [m] and a later
    category [b] attains it too, the result is [a]. *)
Definition tie_break_as_stated (title summary : str) : Prop :=
  forall (scores pre mid post : dict Z) (a b : str) (m : Z),
    compute_scores (lower (title ++ u " " ++ summary)) = Some scores ->
    scores = pre ++ (a, m) :: mid ++ (b, m) :: post ->
    (forall c v, In (c, v) scores -> (v <= m)%Z) ->
    (forall c v, In (c, v) pre -> (v < m)%Z) ->
    classify_paper title summary = Some a.

(** The papers of [results] the classifier assigns to [c], in input order. *)
Definition assigned_to (c : str) (p : Result) : bool :=
  match classify_paper (title p) (summary p) with
  | Some c' => str_eqb c' c
  | None => false
  end.

Definition papers_of (c : str) (results : list Result) : list Result :=
  filter (assigned_to c) results.

(** The keys of [paper_groups]: the configured categories, then the
    fallback. *)
Definition all_categories : list str :=
  dict_keys CATEGORIES ++ [UNCATEGORIZED].

(** The grouping that gives every key the papers assigned to it. *)
Definition grouping_of (results : list Result) : dict (list Result) :=
  map (fun c => (c, papers_of c results)) all_categories.

(** A newline becomes a space, any other character stays. *)
Definition newline_to_space (c : char) : char :=
  if (c =? NL)%N then 32%N else c.

(** [bool(l)] of a list. *)
Definition nonempty {A} (l : list A) : bool :=
  match l with
  | [] => false
  | _ :: _ => true
  end.

(** [paper_groups.get(category, [])] *)
Definition bucket_of (paper_groups : dict (list Result)) (category : str)
    : list Result :=
  match dict_get paper_groups category with
  | Some papers => papers
  | None => []
  end.

(** The title heading, the update line and the explanatory line. *)
Definition header (utc_now : datetime) : str :=
  u "# 🧠 Open Neuromorphic - Daily ArXiv" ++ [NL; NL]
  ++ u "**Automated Daily Update** | Last Run: "
  ++ strftime utc_now (u "%Y-%m-%d %H:%M UTC") ++ [NL; NL]
  ++ u "Papers are automatically categorized by topic and sorted by date."
  ++ [NL; NL].

Definition heading (category : str) : str :=
  u "## " ++ category ++ [NL; NL].

(** One category's section: its heading, its papers, the separator. *)
Definition section_of (category : str) (papers : list Result) : str :=
  heading category ++ concat (map (render_paper []) papers)
  ++ u "---" ++ [NL; NL].

Definition no_papers_notice : str :=
  u "### 😴 No new papers found today." ++ [NL] ++ u "Check back tomorrow!".

(** ** Strings: equality and containment *)

Lemma str_eqb_eq (a b : str) : str_eqb a b = true <-> a = b.
Proof.
  revert b; induction a as [|c a IH]; intros [|d b]; simpl;
    try (split; [discriminate | congruence]); try tauto.
  rewrite andb_true_iff, N.eqb_eq, IH.
  split; [intros [-> ->]; reflexivity | intros E; injection E; auto].
Qed.

Lemma str_eqb_refl (a : str) : str_eqb a a = true.
Proof. now apply str_eqb_eq. Qed.

Lemma str_eqb_neq (a b : str) : str_eqb a b = false <-> a <> b.
Proof.
  rewrite <- str_eqb_eq. destruct (str_eqb a b); split; congruence.
Qed.

Lemma startswith_spec (text p : str) :
  startswith text p = true <-> exists post, text = p ++ post.
Proof.
  revert text; induction p as [|c p IH]; intros text; simpl.
  - split; [intros _; now exists text | reflexivity].
  - destruct text as [|d text].
    + split; [discriminate | intros [post E]; discriminate].
    + rewrite andb_true_iff, N.eqb_eq, IH. split.
      * intros [-> [post ->]]. now exists post.
      * intros [post E]. injection E as -> ->. split; [reflexivity | now exists post].
Qed.

(** [contains] decides [occurs]. *)
Lemma contains_spec (text kw : str) :
  contains text kw = true <-> occurs kw text.
Proof.
  unfold occurs. induction text as [|d text IH]; simpl.
  - rewrite orb_false_r, startswith_spec. split.
    + intros [post E]. now exists [], post.
    + intros [[|c pre] [post E]]; [now exists post | discriminate].
  - rewrite orb_true_iff, startswith_spec, IH. split.
    + intros [[post E] | [pre [post E]]].
      * now exists [], post.
      * exists (d :: pre), post. simpl. now rewrite E.
    + intros [[|c pre] [post E]].
      * left. now exists post.
      * right. injection E as -> E. now exists pre, post.
Qed.

(** ** Dictionaries *)

Section DictFacts.

Context {V : Type}.
Implicit Types (d pre post : dict V) (k : str) (v : V).

Lemma dict_keys_app pre post :
  dict_keys (pre ++ post) = dict_keys pre ++ dict_keys post.
Proof. apply map_app. Qed.

Lemma dict_get_skip pre post k :
  ~ In k (dict_keys pre) -> dict_get (pre ++ post) k = dict_get post k.
Proof.
  induction pre as [|[k' v'] pre IH]; simpl; intros Hk; [reflexivity|].
  destruct (str_eqb k' k) eqn:E.
  - apply str_eqb_eq in E. tauto.
  - apply IH. tauto.
Qed.

Lemma dict_get_here pre post k v :
  ~ In k (dict_keys pre) -> dict_get (pre ++ (k, v) :: post) k = Some v.
Proof.
  intros Hk. rewrite dict_get_skip by assumption.
  simpl. now rewrite str_eqb_refl.
Qed.

Lemma dict_set_here pre post k v v' :
  ~ In k (dict_keys pre) ->
  dict_set (pre ++ (k, v) :: post) k v' = pre ++ (k, v') :: post.
Proof.
  induction pre as [|[k0 v0] pre IH]; simpl; intros Hk.
  - now rewrite str_eqb_refl.
  - destruct (str_eqb k0 k) eqn:E.
    + apply str_eqb_eq in E. tauto.
    + f_equal. apply IH. tauto.
Qed.

Lemma dict_set_new d k v :
  ~ In k (dict_keys d) -> dict_set d k v = d ++ [(k, v)].
Proof.
  induction d as [|[k0 v0] d IH]; simpl; intros Hk; [reflexivity|].
  destruct (str_eqb k0 k) eqn:E.
  - apply str_eqb_eq in E. tauto.
  - f_equal. apply IH. tauto.
Qed.

(** With unique keys, an entry is what a lookup of its key finds. *)
Lemma dict_get_in d k v :
  NoDup (dict_keys d) -> In (k, v) d -> dict_get d k = Some v.
Proof.
  intros Hnd Hin. apply in_split in Hin as (pre & post & ->).
  apply dict_get_here.
  rewrite dict_keys_app in Hnd. simpl in Hnd.
  apply NoDup_remove_2 in Hnd. rewrite in_app_iff in Hnd. tauto.
Qed.

Lemma dict_get_some_in d k v : dict_get d k = Some v -> In (k, v) d.
Proof.
  induction d as [|[k0 v0] d IH]; simpl; [discriminate|].
  destruct (str_eqb k0 k) eqn:E.
  - apply str_eqb_eq in E. intros [= ->]. left. now subst.
  - auto.
Qed.

Lemma dict_comp_from (f : str -> V) keys d :
  NoDup (dict_keys d ++ keys) ->
  fold_left (fun d k => dict_set d k (f k)) keys d
  = d ++ map (fun k => (k, f k)) keys.
Proof.
  revert d; induction keys as [|k keys IH]; intros d Hnd; simpl.
  - now rewrite app_nil_r.
  - rewrite dict_set_new.
    + rewrite IH.
      * now rewrite <- app_assoc.
      * rewrite dict_keys_app, <- app_assoc. exact Hnd.
    + apply NoDup_remove_2 in Hnd. rewrite in_app_iff in Hnd. tauto.
Qed.

(** A comprehension over distinct keys lists them in order. *)
Lemma dict_comp_closed (f : str -> V) keys :
  NoDup keys -> dict_comp f keys = map (fun k => (k, f k)) keys.
Proof. intros Hnd. unfold dict_comp. now rewrite dict_comp_from. Qed.

End DictFacts.

(** ** The scoring loops *)

Lemma count_matches_cons text kw keywords :
  count_matches text (kw :: keywords)
  = ((if contains text kw then 1 else 0) + count_matches text keywords)%Z.
Proof.
  unfold count_matches. cbn [filter].
  destruct (contains text kw); cbn [length]; lia.
Qed.

Lemma count_matches_nonneg text keywords : (0 <= count_matches text keywords)%Z.
Proof. apply Nat2Z.is_nonneg. Qed.

(** No keyword of the list occurs exactly when the count is zero. *)
Lemma count_matches_zero text keywords :
  count_matches text keywords = 0%Z
  <-> forall kw, In kw keywords -> ~ occurs kw text.
Proof.
  induction keywords as [|kw keywords IH].
  - split; [intros _ kw [] | reflexivity].
  - rewrite count_matches_cons.
    pose proof (count_matches_nonneg text keywords) as Hpos.
    destruct (contains text kw) eqn:E.
    + split; [lia|]. intros H. exfalso.
      apply (H kw); [now left | now apply contains_spec].
    + rewrite Z.add_0_l, IH. split.
      * intros H kw' [<- | Hin]; [|now apply H].
        rewrite <- contains_spec. congruence.
      * intros H kw' Hin. apply H. now right.
Qed.

Lemma score_keywords_closed text cat keywords pre post v :
  ~ In cat (dict_keys pre) ->
  score_keywords text cat keywords (pre ++ (cat, v) :: post)
  = Some (pre ++ (cat, (v + count_matches text keywords)%Z) :: post).
Proof.
  intros Hcat. revert v.
  induction keywords as [|kw keywords IH]; intros v; simpl.
  - unfold count_matches. simpl. now rewrite Z.add_0_r.
  - rewrite count_matches_cons. destruct (contains text kw); cbv iota.
    + rewrite dict_get_here by assumption. cbn [bind].
      rewrite dict_set_here by assumption.
      now rewrite IH, Z.add_assoc.
    + now rewrite IH, Z.add_0_l.
Qed.

Lemma score_categories_closed text items :
  forall done,
    NoDup (dict_keys done ++ dict_keys items) ->
    score_categories text items (done ++ map (fun it => (fst it, 0%Z)) items)
    = Some (done ++ map (counted text) items).
Proof.
  induction items as [|[cat keywords] items IH]; intros done Hnd; [reflexivity|].
  simpl. rewrite score_keywords_closed.
  - simpl. 
    change (done ++ (cat, count_matches text keywords) :: ?l)
      with (done ++ [(cat, count_matches text keywords)] ++ l).
    rewrite !app_assoc, IH.
    + unfold counted at 2. simpl. now rewrite <- app_assoc.
    + rewrite dict_keys_app, <- app_assoc. exact Hnd.
  - apply NoDup_remove_2 in Hnd. rewrite in_app_iff in Hnd. tauto.
Qed.

Lemma CATEGORIES_keys_NoDup : NoDup (dict_keys CATEGORIES).
Proof.
  repeat constructor; simpl; intuition; match goal with
  | H : _ = _ |- _ => vm_compute in H; discriminate H
  end.
Qed.

(** Lines 37-42 leave every category with its number of matching keywords,
    in the order of [CATEGORIES]. *)
Lemma compute_scores_closed text :
  compute_scores text = Some (map (counted text) CATEGORIES).
Proof.
  unfold compute_scores.
  rewrite dict_comp_closed by apply CATEGORIES_keys_NoDup.
  unfold dict_keys at 1. rewrite map_map.
  apply (score_categories_closed text CATEGORIES []).
  apply CATEGORIES_keys_NoDup.
Qed.

(** ** The builtin [max] *)

Lemma max_loop_spec (key : str -> option Z) (l : dict Z) :
  (forall k v, In (k, v) l -> key k = Some v) ->
  forall m mv,
  exists r,
    max_loop key m (Some mv) (dict_keys l) = Some r
    /\ ((r = m /\ forall k v, In (k, v) l -> (v <= mv)%Z)
        \/ exists v pre post,
             l = pre ++ (r, v) :: post /\ (mv < v)%Z
             /\ (forall k' v', In (k', v') pre -> (v' < v)%Z)
             /\ (forall k' v', In (k', v') post -> (v' <= v)%Z)).
Proof.
  induction l as [|[k v] l IH]; intros Hkey m mv.
  - exists m. split; [reflexivity|]. left. split; [reflexivity | intros ? ? []].
  - assert (Hl : forall k' v', In (k', v') l -> key k' = Some v')
      by (intros; apply Hkey; now right).
    cbn [dict_keys map fst max_loop]. rewrite (Hkey k v) by now left.
    cbn [py_gt bind]. destruct (Z.gtb_spec v mv) as [Hgt | Hle].
    + destruct (IH Hl k v) as (r & Hr & Hcase). fold (dict_keys l).
      exists r. split; [exact Hr|]. right.
      destruct Hcase as [[-> Hrest] | (v' & pre & post & -> & Hlt & Hpre & Hpost)].
      * exists v, [], l. repeat split; [lia | intros ? ? [] | exact Hrest].
      * exists v', ((k, v) :: pre), post. repeat split; [lia | | exact Hpost].
        intros k' w [[= <- <-] | Hin]; [lia | eauto].
    + destruct (IH Hl m mv) as (r & Hr & Hcase). fold (dict_keys l).
      exists r. split; [exact Hr|].
      destruct Hcase as [[-> Hrest] | (v' & pre & post & -> & Hlt & Hpre & Hpost)].
      * left. split; [reflexivity|].
        intros k' w [[= <- <-] | Hin]; [lia | eauto].
      * right. exists v', ((k, v) :: pre), post. repeat split; [lia | | exact Hpost].
        intros k' w [[= <- <-] | Hin]; [lia | eauto].
Qed.

(** [max(d, key=d.get)] of a dictionary that is not empty is its first key
    of greatest value. *)
Lemma py_max_spec (d : dict Z) :
  d <> [] -> NoDup (dict_keys d) ->
  exists r v,
    py_max (dict_keys d) (dict_get d) = Some r
    /\ dict_get d r = Some v /\ first_max d r v.
Proof.
  destruct d as [|[k0 v0] rest]; [congruence|]. intros _ Hnd.
  set (d := (k0, v0) :: rest) in *.
  assert (Hget : forall k v, In (k, v) d -> dict_get d k = Some v)
    by (intros; now apply dict_get_in).
  destruct (max_loop_spec (dict_get d) rest) with (m := k0) (mv := v0)
    as (r & Hr & Hcase).
  { intros k v Hin. apply Hget. now right. }
  assert (H0 : dict_get d k0 = Some v0) by (apply Hget; now left).
  destruct Hcase as [[-> Hrest] | (v & pre & post & E & Hlt & Hpre & Hpost)].
  - exists k0, v0. unfold py_max. cbn [dict_keys d map fst].
    fold (dict_keys rest). fold d. rewrite H0. repeat split; try assumption.
    exists [], rest. repeat split; [intros ? ? [] | exact Hrest].
  - exists r, v. unfold py_max. cbn [dict_keys d map fst].
    fold (dict_keys rest). fold d. rewrite H0. split; [exact Hr|].
    assert (Hd : d = ((k0, v0) :: pre) ++ (r, v) :: post)
      by (unfold d; now rewrite E).
    split.
    + apply Hget. rewrite Hd. apply in_elt.
    + exists ((k0, v0) :: pre), post. repeat split; [exact Hd | | exact Hpost].
      intros k' w [[= <- <-] | Hin]; [lia | eauto].
Qed.

Lemma counted_keys text items :
  dict_keys (map (counted text) items) = dict_keys items.
Proof. unfold dict_keys. rewrite map_map. reflexivity. Qed.

(** [classify_paper] in closed form: the first category of greatest score,
    or the fallback when that score is 0. *)
Lemma classify_paper_closed title summary :
  exists k v,
    first_max (map (counted (match_text title summary)) CATEGORIES) k v
    /\ classify_paper title summary
       = Some (if (v =? 0)%Z then UNCATEGORIZED else k).
Proof.
  unfold classify_paper. fold (match_text title summary).
  set (text := match_text title summary).
  rewrite compute_scores_closed. cbn [bind].
  destruct (py_max_spec (map (counted text) CATEGORIES)) as (r & v & Hr & Hv & Hfm).
  - discriminate.
  - rewrite counted_keys. apply CATEGORIES_keys_NoDup.
  - exists r, v. split; [exact Hfm|].
    rewrite Hr. cbn [bind]. rewrite Hv. cbn [bind].
    now destruct (v =? 0)%Z.
Qed.

(** ** The classifier *)

(** Membership in a list of literals, by evaluation. *)
Ltac in_literal_list :=
  vm_compute; repeat (first [left; reflexivity | right]).

Lemma counted_in text k v :
  In (k, v) (map (counted text) CATEGORIES) ->
  exists keywords, In (k, keywords) CATEGORIES /\ v = count_matches text keywords.
Proof.
  intros Hin. apply in_map_iff in Hin as ([cat keywords] & [= <- <-] & Hin).
  now exists keywords.
Qed.

Lemma first_max_in d k v : first_max d k v -> In (k, v) d.
Proof. intros (pre & post & -> & _). apply in_elt. Qed.

Lemma first_max_bound d k v k' v' :
  first_max d k v -> In (k', v') d -> (v' <= v)%Z.
Proof.
  intros (pre & post & -> & Hpre & Hpost) Hin.
  apply in_app_or in Hin as [Hin | [[= <- <-] | Hin]].
  - apply Hpre in Hin. lia.
  - lia.
  - now apply Hpost in Hin.
Qed.

Lemma UNCATEGORIZED_fresh : ~ In UNCATEGORIZED (dict_keys CATEGORIES).
Proof.
  simpl. intuition; match goal with
  | H : _ = _ |- _ => vm_compute in H; discriminate H
  end.
Qed.

(** C1.  [classify_paper] always returns a name, and the name is one of the
    configured categories or the fallback.  It is the fallback exactly when
    no keyword of any category occurs in the lowercased [title + " " +
    summary], and a configured category otherwise. *)
Theorem classify_paper_fallback_iff_no_keyword (title summary : str) :
  exists c,
    classify_paper title summary = Some c
    /\ In c (dict_keys CATEGORIES ++ [UNCATEGORIZED])
    /\ (c = UNCATEGORIZED
        <-> forall cat keywords kw,
              In (cat, keywords) CATEGORIES -> In kw keywords ->
              ~ occurs kw (lower (title ++ u " " ++ summary)))
    /\ (c <> UNCATEGORIZED
        -> c = HARDWARE \/ c = ALGORITHMS \/ c = APPLICATIONS).
Proof.
  destruct (classify_paper_closed title summary) as (k & v & Hfm & Hc).
  fold (match_text title summary). set (text := match_text title summary) in *.
  pose proof (first_max_in _ _ _ Hfm) as Hin.
  destruct (counted_in _ _ _ Hin) as (kws & Hk & Hv).
  assert (Hkey : In k (dict_keys CATEGORIES))
    by (apply in_map_iff; now exists (k, kws)).
  destruct (Z.eqb_spec v 0) as [Hz | Hnz].
  - exists UNCATEGORIZED. split; [exact Hc|]. split; [apply in_elt|].
    split; [|tauto]. split; [|reflexivity].
    intros _ cat keywords kw Hcat Hkw.
    assert (H0 : count_matches text keywords = 0%Z).
    { pose proof (count_matches_nonneg text keywords).
      assert (In (cat, count_matches text keywords) (map (counted text) CATEGORIES))
        by (apply in_map_iff; now exists (cat, keywords)).
      pose proof (first_max_bound _ _ _ _ _ Hfm H0). lia. }
    now apply (proj1 (count_matches_zero text keywords) H0).
  - assert (Hne : k <> UNCATEGORIZED)
      by (intros ->; now apply UNCATEGORIZED_fresh).
    exists k. split; [exact Hc|]. split; [apply in_or_app; now left|].
    split.
    + split; [intros E; contradiction|]. intros Hnone. exfalso. apply Hnz. subst v.
      apply count_matches_zero. intros kw. now apply (Hnone k kws).
    + intros _. unfold dict_keys, CATEGORIES in Hkey. cbn [map fst In] in Hkey.
      destruct Hkey as [<- | [<- | [<- | []]]];
        [left | right; left | right; right]; reflexivity.
Qed.

(** C3.  The score the classifier computes for a configured category is
    the number of that category's keywords that occur in the lowercased
    [title + " " + summary]; [contains] is substring containment, so a
    keyword counts once however often it occurs (with "spiking" three times
    in the title the score is 1). *)
Theorem score_is_number_of_matching_keywords (title summary : str) :
  exists scores,
    compute_scores (lower (title ++ u " " ++ summary)) = Some scores
    /\ dict_keys scores = dict_keys CATEGORIES
    /\ (forall cat keywords,
          In (cat, keywords) CATEGORIES ->
          dict_get scores cat
          = Some (Z.of_nat (length (filter
                    (contains (lower (title ++ u " " ++ summary))) keywords))))
    /\ (forall kw,
          contains (lower (title ++ u " " ++ summary)) kw = true
          <-> occurs kw (lower (title ++ u " " ++ summary)))
    /\ compute_scores (lower (u "spiking spiking spiking" ++ u " " ++ u ""))
       = compute_scores (lower (u "spiking" ++ u " " ++ u ""))
    /\ compute_scores (lower (u "spiking" ++ u " " ++ u ""))
       = Some [(HARDWARE, 0%Z); (ALGORITHMS, 1%Z); (APPLICATIONS, 0%Z)].
Proof.
  set (text := lower (title ++ u " " ++ summary)).
  exists (map (counted text) CATEGORIES).
  split; [apply compute_scores_closed|].
  split; [apply counted_keys|].
  split; [|split; [intros kw; apply contains_spec | split; vm_compute; reflexivity]].
  intros cat keywords Hin. apply dict_get_in.
  - rewrite counted_keys. apply CATEGORIES_keys_NoDup.
  - apply in_map_iff. now exists (cat, keywords).
Qed.

Lemma count_matches_pos text keywords kw :
  In kw keywords -> contains text kw = true ->
  (1 <= count_matches text keywords)%Z.
Proof.
  induction keywords as [|kw' keywords IH]; intros Hin Hc; [destruct Hin|].
  rewrite count_matches_cons.
  pose proof (count_matches_nonneg text keywords) as Hpos.
  destruct Hin as [-> | Hin].
  - rewrite Hc. lia.
  - specialize (IH Hin Hc). destruct (contains text kw'); lia.
Qed.

(** C4.  Matching is substring containment, with no check of word
    boundaries: the test the scoring loop makes holds exactly when the
    keyword is a contiguous part of the text, and a keyword of a category
    that lies anywhere in the lowercased [title + " " + summary], whatever
    stands before and after it, gives that category a score of at least 1
    and keeps the paper out of the fallback.  So the title "SNNcore paper"
    with an empty summary is lowercased to "snncore paper ", in which the
    keyword "snn" of "Algorithms & Theory" occurs inside the word
    "snncore"; that is the only match, and the result is that category,
    as it is for "MicroSNNcore paper". *)
Theorem classify_SNNcore_matches_inside_word :
  (forall text kw, contains text kw = true <-> occurs kw text)
  /\ (forall title summary cat keywords kw pre post,
        In (cat, keywords) CATEGORIES -> In kw keywords ->
        lower (title ++ u " " ++ summary) = pre ++ kw ++ post ->
        exists scores v c,
          compute_scores (lower (title ++ u " " ++ summary)) = Some scores
          /\ dict_get scores cat = Some v /\ (1 <= v)%Z
          /\ classify_paper title summary = Some c /\ c <> UNCATEGORIZED)
  /\ lower (u "SNNcore paper" ++ u " " ++ u "") = u "snncore paper "
  /\ (exists keywords,
        dict_get CATEGORIES ALGORITHMS = Some keywords /\ In (u "snn") keywords)
  /\ contains (lower (u "SNNcore paper" ++ u " " ++ u "")) (u "snn") = true
  /\ compute_scores (lower (u "SNNcore paper" ++ u " " ++ u ""))
     = Some [(HARDWARE, 0%Z); (ALGORITHMS, 1%Z); (APPLICATIONS, 0%Z)]
  /\ classify_paper (u "SNNcore paper") (u "") = Some ALGORITHMS
  /\ classify_paper (u "MicroSNNcore paper") (u "") = Some ALGORITHMS.
Proof.
  split; [intros text kw; apply contains_spec|]. split.
  { intros title summary cat keywords kw pre post Hcat Hkw E.
    fold (match_text title summary) in *.
    set (text := match_text title summary) in *.
    assert (Hc : contains text kw = true)
      by (apply contains_spec; now exists pre, post).
    pose proof (count_matches_pos text keywords kw Hkw Hc) as Hpos.
    assert (Hin : In (cat, count_matches text keywords)
                    (map (counted text) CATEGORIES))
      by (apply in_map_iff; now exists (cat, keywords)).
    destruct (classify_paper_closed title summary) as (k & v & Hfm & Hcl).
    fold text in Hfm.
    pose proof (first_max_bound _ _ _ _ _ Hfm Hin) as Hle.
    exists (map (counted text) CATEGORIES), (count_matches text keywords), k.
    split; [apply compute_scores_closed|]. split.
    { apply dict_get_in; [|exact Hin].
      rewrite counted_keys. apply CATEGORIES_keys_NoDup. }
    split; [exact Hpos|]. split.
    - rewrite Hcl. destruct (Z.eqb_spec v 0); [lia | reflexivity].
    - intros ->. apply UNCATEGORIZED_fresh.
      rewrite <- (counted_keys text). apply in_map_iff.
      exists (UNCATEGORIZED, v). split; [reflexivity|].
      now apply first_max_in. }
  split; [vm_compute; reflexivity|]. split.
  - eexists. split; [vm_compute; reflexivity|]. in_literal_list.
  - repeat apply conj; vm_compute; reflexivity.
Qed.

(** C9.  A keyword of several words can match across the boundary of the
    two fields: with a title that ends in "liquid" and a summary that
    begins with "state", the keyword "liquid state" occurs in neither
    lowercased field but occurs in the text the classifier matches, and it
    is counted in the score of "Algorithms & Theory". *)
Theorem keyword_matches_across_field_boundary :
  exists title summary keywords,
    dict_get CATEGORIES ALGORITHMS = Some keywords
    /\ In (u "liquid state") keywords
    /\ contains (lower title) (u "liquid state") = false
    /\ contains (lower summary) (u "liquid state") = false
    /\ contains (lower (title ++ u " " ++ summary)) (u "liquid state") = true
    /\ compute_scores (lower (title ++ u " " ++ summary))
       = Some [(HARDWARE, 0%Z); (ALGORITHMS, 1%Z); (APPLICATIONS, 0%Z)]
    /\ classify_paper title summary = Some ALGORITHMS.
Proof.
  exists (u "Computing with a liquid"), (u "state machine").
  eexists. split; [vm_compute; reflexivity|]. split; [in_literal_list|].
  repeat apply conj; vm_compute; reflexivity.
Qed.

(** Two ways of cutting a list at its first element outside [P] agree. *)
Lemma first_outside_unique {A} (P : A -> Prop) (p1 p2 : list A) x1 x2 q1 q2 :
  p1 ++ x1 :: q1 = p2 ++ x2 :: q2 ->
  (forall y, In y p1 -> P y) -> ~ P x1 ->
  (forall y, In y p2 -> P y) -> ~ P x2 ->
  p1 = p2 /\ x1 = x2.
Proof.
  revert p2; induction p1 as [|y p1 IH]; intros [|z p2] E H1 N1 H2 N2;
    simpl in E; injection E as -> E.
  - now split.
  - exfalso. apply N1, H2. now left.
  - exfalso. apply N2, H1. now left.
  - destruct (IH p2 E) as [-> ->]; auto.
    + intros; apply H1; now right.
    + intros; apply H2; now right.
Qed.

(** C2, amended.  When the greatest score is positive and is attained by
    two categories [a] and [b], of which [a] is the first category in the
    iteration order of [CATEGORIES] to attain it, [classify_paper] returns
    [a].  (At a greatest score of 0 the result is the fallback.) *)
Theorem tie_goes_to_first_declared
    (title summary : str) (scores pre mid post : dict Z) (a b : str) (m : Z) :
  compute_scores (lower (title ++ u " " ++ summary)) = Some scores ->
  scores = pre ++ (a, m) :: mid ++ (b, m) :: post ->
  (forall c v, In (c, v) scores -> (v <= m)%Z) ->
  (forall c v, In (c, v) pre -> (v < m)%Z) ->
  (0 < m)%Z ->
  dict_keys scores = dict_keys CATEGORIES
  /\ classify_paper title summary = Some a.
Proof.
  intros Hscores Hsplit Hmax Hpre Hpos.
  fold (match_text title summary) in Hscores.
  rewrite compute_scores_closed in Hscores.
  assert (Hs : map (counted (match_text title summary)) CATEGORIES = scores)
    by congruence.
  destruct (classify_paper_closed title summary) as (k & v & Hfm & Hc).
  rewrite Hs in Hfm. split; [rewrite <- Hs; apply counted_keys|].
  assert (Hv : v = m).
  { apply Z.le_antisymm.
    - apply (Hmax k). now apply first_max_in.
    - apply (first_max_bound _ _ _ a m Hfm). rewrite Hsplit. apply in_elt. }
  subst v. destruct Hfm as (pre' & post' & E & Hpre' & _).
  rewrite Hsplit in E.
  destruct (first_outside_unique (fun kv : str * Z => (snd kv < m)%Z)
              pre pre' (a, m) (k, m) _ _ E) as [_ [= ->]]; simpl; try lia.
  - intros [c v] Hin. now apply (Hpre c).
  - intros [c v] Hin. now apply (Hpre' c).
  - rewrite Hc. destruct (Z.eqb_spec m 0); [lia | reflexivity].
Qed.

(** ** The grouper *)

Section Tabulated.

Context {V : Type}.

Lemma dict_get_tabulate (f : str -> V) ks k :
  In k ks -> dict_get (map (fun c => (c, f c)) ks) k = Some (f k).
Proof.
  induction ks as [|a ks IH]; intros Hin; [destruct Hin|].
  cbn [map dict_get]. destruct (str_eqb a k) eqn:E.
  - apply str_eqb_eq in E. now subst.
  - apply str_eqb_neq in E. destruct Hin as [-> | Hin]; [congruence | auto].
Qed.

Lemma dict_set_tabulate (f g : str -> V) ks k :
  NoDup ks -> In k ks -> (forall c, c <> k -> g c = f c) ->
  dict_set (map (fun c => (c, f c)) ks) k (g k) = map (fun c => (c, g c)) ks.
Proof.
  intros Hnd Hin Hext. induction ks as [|a ks IH]; [destruct Hin|].
  apply NoDup_cons_iff in Hnd as [Ha Hnd].
  cbn [map dict_set]. destruct (str_eqb a k) eqn:E.
  - apply str_eqb_eq in E. subst a. f_equal.
    apply map_ext_in. intros c Hc. rewrite Hext; [reflexivity|].
    intros ->. contradiction.
  - apply str_eqb_neq in E. destruct Hin as [-> | Hin]; [congruence|].
    rewrite (Hext a) by assumption. f_equal. now apply IH.
Qed.

End Tabulated.

Lemma all_categories_NoDup : NoDup all_categories.
Proof.
  repeat constructor; simpl; intuition; match goal with
  | H : _ = _ |- _ => vm_compute in H; discriminate H
  end.
Qed.

(** The classifier never raises, and its result is a key of the grouping. *)
Lemma classify_paper_total title summary :
  exists c, classify_paper title summary = Some c /\ In c all_categories.
Proof.
  destruct (classify_paper_closed title summary) as (k & v & Hfm & Hc).
  destruct (v =? 0)%Z.
  - exists UNCATEGORIZED. split; [exact Hc | apply in_elt].
  - exists k. split; [exact Hc|]. apply in_or_app. left.
    apply first_max_in in Hfm. rewrite <- (counted_keys (match_text title summary)).
    apply in_map_iff. now exists (k, v).
Qed.

Lemma assigned_to_iff c p :
  assigned_to c p = true <-> classify_paper (title p) (summary p) = Some c.
Proof.
  unfold assigned_to. destruct (classify_paper (title p) (summary p)) as [c'|].
  - rewrite str_eqb_eq. split; congruence.
  - split; discriminate.
Qed.

Lemma papers_of_snoc c results p :
  papers_of c (results ++ [p])
  = papers_of c results ++ (if assigned_to c p then [p] else []).
Proof.
  unfold papers_of. rewrite filter_app. simpl. now destruct (assigned_to c p).
Qed.

(** Line 70 leaves every key with an empty bucket. *)
Lemma paper_groups_initial :
  dict_set (dict_comp (fun _ => @nil Result) (dict_keys CATEGORIES))
    UNCATEGORIZED []
  = grouping_of [].
Proof.
  rewrite dict_comp_closed by apply CATEGORIES_keys_NoDup.
  rewrite dict_set_new.
  - unfold grouping_of, all_categories. now rewrite map_app.
  - unfold dict_keys at 1. rewrite map_map. cbn [fst]. rewrite map_id.
    apply UNCATEGORIZED_fresh.
Qed.

(** Lines 73-74 on a grouping of the papers seen so far. *)
Lemma group_step_closed seen p :
  group_step (grouping_of seen) p = Some (grouping_of (seen ++ [p])).
Proof.
  unfold group_step.
  destruct (classify_paper_total (title p) (summary p)) as (cat & Hcat & Hin).
  rewrite Hcat. cbn [bind]. unfold grouping_of.
  rewrite dict_get_tabulate by assumption. cbn [bind]. f_equal.
  assert (E : papers_of cat seen ++ [p] = papers_of cat (seen ++ [p])).
  { rewrite papers_of_snoc.
    now rewrite (proj2 (assigned_to_iff cat p) Hcat). }
  rewrite E.
  apply (dict_set_tabulate (fun c => papers_of c seen)
           (fun c => papers_of c (seen ++ [p]))).
  - apply all_categories_NoDup.
  - exact Hin.
  - intros c Hne. rewrite papers_of_snoc.
    destruct (assigned_to c p) eqn:A; [|apply app_nil_r].
    apply assigned_to_iff in A. congruence.
Qed.

Lemma group_loop_closed results :
  forall seen,
    group_loop results (grouping_of seen) = Some (grouping_of (seen ++ results)).
Proof.
  induction results as [|p results IH]; intros seen; cbn [group_loop].
  - now rewrite app_nil_r.
  - rewrite group_step_closed. cbn [bind]. rewrite IH.
    now rewrite <- app_assoc.
Qed.

(** Lines 69-74 in closed form. *)
Lemma group_papers_closed results :
  group_papers results = Some (grouping_of results).
Proof.
  unfold group_papers. rewrite paper_groups_initial.
  apply (group_loop_closed results []).
Qed.

Lemma concat_map_nil {A B} (ks : list A) :
  concat (map (fun _ => @nil B) ks) = [].
Proof. induction ks; simpl; auto. Qed.

(** Filtering by a key that every element has exactly one of, over distinct
    keys, only rearranges the list. *)
Lemma concat_filter_Permutation {K A} (f : K -> A -> bool) (ks : list K)
    (l : list A) :
  NoDup ks ->
  (forall x, In x l ->
     exists c, In c ks /\ f c x = true /\ forall c', f c' x = true -> c' = c) ->
  Permutation (concat (map (fun c => filter (f c) l) ks)) l.
Proof.
  intros Hnd. induction l as [|x l IH]; intros Hone.
  - simpl. now rewrite concat_map_nil.
  - destruct (Hone x (or_introl eq_refl)) as (c & Hc & Hfc & Huniq).
    apply in_split in Hc as (k1 & k2 & ->).
    assert (Hother : forall c', In c' (k1 ++ k2) -> f c' x = false).
    { intros c' Hin. destruct (f c' x) eqn:E; [|reflexivity].
      apply Huniq in E. subst c'. now apply NoDup_remove_2 in Hnd. }
    assert (Hrest : forall ks', (forall c', In c' ks' -> f c' x = false) ->
              map (fun c' => filter (f c') (x :: l)) ks'
              = map (fun c' => filter (f c') l) ks').
    { intros ks' H. apply map_ext_in. intros c' Hin. simpl.
      now rewrite (H c' Hin). }
    rewrite map_app, concat_app. cbn [map concat filter]. rewrite Hfc.
    rewrite !Hrest by (intros; apply Hother, in_or_app; auto).
    rewrite <- app_comm_cons. symmetry. apply Permutation_cons_app. symmetry.
    specialize (IH (fun y Hy => Hone y (or_intror Hy))).
    now rewrite map_app, concat_app in IH.
Qed.

(** C5.  [group_papers] never raises, and the grouping it returns is a
    partition of the input: its keys are the configured categories followed
    by the fallback, which is there whatever the input; every input paper is
    in the bucket of its category and no paper is in the buckets of two
    keys; every bucket is the input filtered by its key, so in input order;
    and the buckets together are a rearrangement of the input. *)
Theorem grouping_is_partition (results : list Result) :
  exists paper_groups,
    group_papers results = Some paper_groups
    /\ dict_keys paper_groups = dict_keys CATEGORIES ++ [UNCATEGORIZED]
    /\ NoDup (dict_keys paper_groups)
    /\ (exists bucket, dict_get paper_groups UNCATEGORIZED = Some bucket)
    /\ (forall p, In p results ->
          exists c bucket,
            classify_paper (title p) (summary p) = Some c
            /\ dict_get paper_groups c = Some bucket /\ In p bucket)
    /\ (forall c1 c2 b1 b2 p,
          dict_get paper_groups c1 = Some b1 ->
          dict_get paper_groups c2 = Some b2 ->
          In p b1 -> In p b2 -> c1 = c2)
    /\ (forall c bucket,
          dict_get paper_groups c = Some bucket ->
          bucket = filter (assigned_to c) results)
    /\ Permutation (concat (map snd paper_groups)) results.
Proof.
  exists (grouping_of results).
  assert (Hkeys : dict_keys (grouping_of results) = all_categories).
  { unfold grouping_of, dict_keys. rewrite map_map. apply map_id. }
  assert (Hget : forall c bucket,
            dict_get (grouping_of results) c = Some bucket ->
            bucket = filter (assigned_to c) results).
  { intros c bucket H. apply dict_get_some_in, in_map_iff in H.
    destruct H as (c' & [= <- <-] & _). reflexivity. }
  split; [apply group_papers_closed|].
  split; [exact Hkeys|].
  split; [rewrite Hkeys; apply all_categories_NoDup|].
  split.
  { eexists. apply (dict_get_tabulate (fun c => papers_of c results)).
    apply in_elt. }
  split.
  { intros p Hp.
    destruct (classify_paper_total (title p) (summary p)) as (c & Hc & Hin).
    exists c, (papers_of c results). split; [exact Hc|]. split.
    - now apply (dict_get_tabulate (fun c => papers_of c results)).
    - apply filter_In. split; [exact Hp | now apply assigned_to_iff]. }
  split.
  { intros c1 c2 b1 b2 p H1 H2 In1 In2.
    rewrite (Hget _ _ H1) in In1. rewrite (Hget _ _ H2) in In2.
    apply filter_In in In1 as [_ A1]. apply filter_In in In2 as [_ A2].
    apply assigned_to_iff in A1, A2. congruence. }
  split; [exact Hget|].
  unfold grouping_of. rewrite map_map. cbn [snd].
  apply (concat_filter_Permutation assigned_to).
  - apply all_categories_NoDup.
  - intros p _.
    destruct (classify_paper_total (title p) (summary p)) as (c & Hc & Hin).
    exists c. split; [exact Hin|]. split; [now apply assigned_to_iff|].
    intros c' A. apply assigned_to_iff in A. congruence.
Qed.

(** ** The renderer *)

Lemma render_paper_app md p : render_paper md p = md ++ render_paper [] p.
Proof. unfold render_paper. cbn [app]. now rewrite <- !app_assoc. Qed.

Lemma render_papers_closed papers :
  forall md,
    fold_left render_paper papers md
    = md ++ concat (map (render_paper []) papers).
Proof.
  induction papers as [|p papers IH]; intros md; cbn [fold_left map concat].
  - now rewrite app_nil_r.
  - now rewrite IH, render_paper_app, <- app_assoc.
Qed.

(** Lines 95-117 in closed form: one section for every category of the
    order whose bucket is not empty, in that order. *)
Lemma render_categories_closed paper_groups order :
  forall md,
    render_categories paper_groups order md
    = md ++ concat (map (fun c => section_of c (bucket_of paper_groups c))
                      (filter (fun c => nonempty (bucket_of paper_groups c))
                         order)).
Proof.
  induction order as [|category order IH]; intros md.
  - cbn. now rewrite app_nil_r.
  - cbn [render_categories filter]. fold (bucket_of paper_groups category).
    destruct (bucket_of paper_groups category) as [|p papers] eqn:E.
    + cbn [nonempty]. apply IH.
    + cbn [nonempty map concat]. rewrite IH, render_papers_closed, E.
      unfold section_of, heading. now rewrite <- !app_assoc.
Qed.

Lemma display_order_all : display_order = all_categories.
Proof. vm_compute. reflexivity. Qed.

Lemma bucket_of_grouping results c :
  In c all_categories -> bucket_of (grouping_of results) c = papers_of c results.
Proof.
  intros Hin. unfold bucket_of, grouping_of.
  now rewrite (dict_get_tabulate (fun c => papers_of c results)).
Qed.

Lemma display_order_NoDup : NoDup display_order.
Proof. rewrite display_order_all. apply all_categories_NoDup. Qed.

(** [main] with the three header lines gathered. *)
Lemma main_closed results utc_now :
  main results utc_now
  = (paper_groups <- group_papers results ;;
     match results with
     | [] => Some (header utc_now ++ no_papers_notice)
     | _ :: _ =>
         Some (render_categories paper_groups display_order (header utc_now))
     end).
Proof.
  unfold main, header, no_papers_notice.
  destruct (group_papers results) as [paper_groups|]; cbn [bind]; [|reflexivity].
  destruct results; rewrite <- !app_assoc; reflexivity.
Qed.

(** C6.  For an input that is not empty the document is the header
    followed by one section (heading, papers, separator) for every category
    of the display order that has a paper, in the display order, which
    names no category twice; a category without papers, the fallback
    included, contributes nothing. *)
Theorem one_section_per_nonempty_category
    (results : list Result) (utc_now : datetime) :
  results <> [] ->
  display_order = [HARDWARE; ALGORITHMS; APPLICATIONS; UNCATEGORIZED]
  /\ NoDup display_order
  /\ main results utc_now
     = Some (header utc_now
             ++ concat (map (fun c => section_of c (papers_of c results))
                          (filter (fun c => nonempty (papers_of c results))
                             display_order))).
Proof.
  intros Hne. split; [unfold display_order; reflexivity|].
  split; [apply display_order_NoDup|].
  rewrite main_closed, group_papers_closed. cbn [bind].
  destruct results as [|p results]; [congruence|].
  rewrite render_categories_closed.
  rewrite (filter_ext_in
             (fun c => nonempty (bucket_of (grouping_of (p :: results)) c))
             (fun c => nonempty (papers_of c (p :: results)))).
  - rewrite (map_ext_in
               (fun c => section_of c (bucket_of (grouping_of (p :: results)) c))
               (fun c => section_of c (papers_of c (p :: results))));
      [reflexivity|].
    intros c Hc. apply filter_In in Hc as [Hc _].
    rewrite display_order_all in Hc. now rewrite bucket_of_grouping.
  - intros c Hc. rewrite display_order_all in Hc.
    now rewrite bucket_of_grouping.
Qed.

(** C8.  With no papers the script does not raise: it writes the header
    followed by the notice that no papers were found, and nothing else. *)
Theorem empty_input_renders_notice (utc_now : datetime) :
  main [] utc_now = Some (header utc_now ++ no_papers_notice)
  /\ no_papers_notice
     = u "### 😴 No new papers found today." ++ [NL] ++ u "Check back tomorrow!".
Proof.
  split; [|unfold no_papers_notice; reflexivity].
  rewrite main_closed, group_papers_closed. reflexivity.
Qed.

(** C7.  The author string of more than three names is the first three
    joined with ", " and followed by " et al."; that of at most three names
    is all of them joined with ", ".  So A, B, C, D give "A, B, C et al.",
    A, B give "A, B", and no author gives the empty string. *)
Theorem author_str_keeps_three_names :
  (forall a b c d rest,
     author_str (a :: b :: c :: d :: rest)
     = a ++ u ", " ++ b ++ u ", " ++ c ++ u " et al.")
  /\ (forall a b c, author_str [a; b; c] = a ++ u ", " ++ b ++ u ", " ++ c)
  /\ (forall a b, author_str [a; b] = a ++ u ", " ++ b)
  /\ (forall a, author_str [a] = a)
  /\ author_str [] = u ""
  /\ author_str [u "A"; u "B"; u "C"; u "D"] = u "A, B, C et al."
  /\ author_str [u "A"; u "B"] = u "A, B".
Proof.
  split.
  { intros a b c d rest. unfold author_str. cbn [length Nat.ltb Nat.leb firstn join].
    now rewrite <- !app_assoc. }
  split; [intros a b c; unfold author_str; cbn [length Nat.ltb Nat.leb join];
          reflexivity|].
  split; [intros a b; unfold author_str; cbn [length Nat.ltb Nat.leb join];
          reflexivity|].
  split; [intros a; unfold author_str; cbn [length Nat.ltb Nat.leb join];
          reflexivity|].
  repeat apply conj; vm_compute; reflexivity.
Qed.

(** ** The text normalizer *)

Lemma replace_newlines text :
  replace text NL (u " ") = map newline_to_space text.
Proof.
  assert (Hsp : u " " = [32%N]) by (vm_compute; reflexivity).
  unfold replace. rewrite Hsp.
  induction text as [|c text IH]; [reflexivity|].
  cbn [flat_map map]. rewrite IH. unfold newline_to_space at 2.
  now destruct (c =? NL)%N.
Qed.

(** [lstrip] removes a prefix of whitespace and stops at the first
    character that is not whitespace. *)
Lemma lstrip_spec s :
  exists leading,
    s = leading ++ lstrip s
    /\ forallb isspace leading = true
    /\ forall c rest, lstrip s = c :: rest -> isspace c = false.
Proof.
  induction s as [|c s (leading & E & Hsp & Hfirst)].
  - exists []. repeat split. discriminate.
  - cbn [lstrip]. destruct (isspace c) eqn:Hc.
    + exists (c :: leading). cbn [app forallb]. rewrite Hc, Hsp.
      split; [now f_equal | split; [reflexivity | exact Hfirst]].
    + exists []. repeat split. intros c' rest [= <- _]. exact Hc.
Qed.

(** [rstrip] removes a suffix of whitespace and stops at the last
    character that is not whitespace. *)
Lemma rstrip_spec s :
  exists trailing,
    s = rstrip s ++ trailing
    /\ forallb isspace trailing = true
    /\ forall c front, rstrip s = front ++ [c] -> isspace c = false.
Proof.
  induction s as [|c s (trailing & E & Hsp & Hlast)].
  - exists []. repeat split. intros c front H. now destruct front.
  - cbn [rstrip]. destruct (rstrip s) as [|r0 r] eqn:R.
    + cbn [app] in E. subst trailing. destruct (isspace c) eqn:Hc.
      * exists (c :: s). cbn [app forallb]. rewrite Hc, Hsp.
        repeat split. intros c' front H. now destruct front.
      * exists s. repeat split; [exact Hsp|].
        intros c' [|f front] H.
        -- injection H as <-. exact Hc.
        -- injection H as _ H. now destruct front.
    + exists trailing. split; [cbn [app]; now rewrite E|]. split; [exact Hsp|].
      intros c' [|f front] H.
      * discriminate H.
      * injection H as _ H. now apply (Hlast c' front).
Qed.

(** C10.  [clean_text] turns every newline into one space, one by one, and
    then drops only whitespace at the two ends: the text with its newlines
    replaced is a run of whitespace, the result, and a run of whitespace,
    and the result neither begins nor ends with whitespace.  Between its
    ends nothing else changes: two newlines become two spaces, and a
    carriage return, a tab and a run of spaces stay as they are. *)
Theorem clean_text_replaces_each_newline_and_trims_ends (text : str) :
  exists leading trailing,
    map newline_to_space text = leading ++ clean_text text ++ trailing
    /\ forallb isspace leading = true
    /\ forallb isspace trailing = true
    /\ (forall c rest, clean_text text = c :: rest -> isspace c = false)
    /\ (forall c front, clean_text text = front ++ [c] -> isspace c = false)
    /\ clean_text (u "a" ++ [NL; NL] ++ u "b") = u "a  b"
    /\ clean_text (u " a" ++ [13; 9]%N ++ u "   b" ++ [NL])
       = u "a" ++ [13; 9]%N ++ u "   b".
Proof.
  unfold clean_text, strip. rewrite replace_newlines.
  set (t := map newline_to_space text).
  destruct (lstrip_spec t) as (leading & El & Hl & Hfirst).
  destruct (rstrip_spec (lstrip t)) as (trailing & Er & Hr & Hlast).
  exists leading, trailing.
  split; [now rewrite <- Er|]. split; [exact Hl|]. split; [exact Hr|].
  split.
  { intros c rest H. rewrite H in Er. cbn [app] in Er.
    now apply (Hfirst c (rest ++ trailing)). }
  split; [exact Hlast|].
  split; vm_compute; reflexivity.
Qed.

(** ** Further properties of the text normalizer *)

(** No character of the string is a newline. *)
Definition no_newline (s : str) : Prop := Forall (fun c => c <> NL) s.

(** The string neither begins nor ends with whitespace. *)
Definition trimmed (s : str) : Prop :=
  (forall c rest, s = c :: rest -> isspace c = false)
  /\ (forall c front, s = front ++ [c] -> isspace c = false).

Lemma newline_to_space_no_newline s : no_newline (map newline_to_space s).
Proof.
  induction s as [|c s IH]; constructor; [|exact IH].
  unfold newline_to_space. destruct (N.eqb_spec c NL); [discriminate | assumption].
Qed.

Lemma newline_to_space_id s : no_newline s -> map newline_to_space s = s.
Proof.
  induction 1 as [|c s Hc _ IH]; [reflexivity|].
  cbn [map]. rewrite IH. unfold newline_to_space.
  destruct (N.eqb_spec c NL); congruence.
Qed.

Lemma lstrip_fixed s :
  (forall c rest, s = c :: rest -> isspace c = false) -> lstrip s = s.
Proof.
  destruct s as [|c s]; intros H; [reflexivity|].
  cbn [lstrip]. now rewrite (H c s eq_refl).
Qed.

Lemma rstrip_fixed s :
  (forall c front, s = front ++ [c] -> isspace c = false) -> rstrip s = s.
Proof.
  intros H. destruct (rstrip_spec s) as (trailing & E & Hsp & _).
  destruct trailing as [|t0 ts]; [now rewrite app_nil_r in E|].
  destruct (@exists_last _ (t0 :: ts)) as (front & c & Heq); [discriminate|].
  rewrite Heq in E, Hsp. rewrite forallb_app in Hsp.
  apply andb_true_iff in Hsp as [_ Hc]. cbn [forallb] in Hc.
  rewrite andb_true_r in Hc. rewrite app_assoc in E.
  rewrite (H c _ E) in Hc. discriminate Hc.
Qed.

Lemma strip_within s : exists leading trailing, s = leading ++ strip s ++ trailing.
Proof.
  destruct (lstrip_spec s) as (leading & El & _).
  destruct (rstrip_spec (lstrip s)) as (trailing & Er & _).
  exists leading, trailing. unfold strip. now rewrite <- Er.
Qed.

Lemma strip_trimmed s : trimmed (strip s).
Proof.
  destruct (lstrip_spec s) as (leading & El & _ & Hfirst).
  destruct (rstrip_spec (lstrip s)) as (trailing & Er & _ & Hlast).
  unfold strip. split; [|exact Hlast].
  intros c rest H. rewrite H in Er. cbn [app] in Er.
  now apply (Hfirst c (rest ++ trailing)).
Qed.

Lemma strip_fixed s : trimmed s -> strip s = s.
Proof.
  intros [Hfirst Hlast]. unfold strip.
  rewrite (lstrip_fixed s Hfirst). now apply rstrip_fixed.
Qed.

Lemma Forall_strip (P : char -> Prop) s : Forall P s -> Forall P (strip s).
Proof.
  intros H. destruct (strip_within s) as (leading & trailing & E).
  rewrite E in H. apply Forall_app in H as [_ H].
  now apply Forall_app in H as [H _].
Qed.

(** X1.  The result of [clean_text] has no newline character, whatever the
    text. *)
Theorem clean_text_has_no_newline (text : str) : no_newline (clean_text text).
Proof.
  unfold clean_text. rewrite replace_newlines.
  apply Forall_strip, newline_to_space_no_newline.
Qed.

(** X2.  A string without a newline that neither begins nor ends with
    whitespace is returned as it is. *)
Theorem clean_text_keeps_normalized (text : str) :
  no_newline text -> trimmed text -> clean_text text = text.
Proof.
  intros Hnl Htr. unfold clean_text.
  rewrite replace_newlines, (newline_to_space_id text Hnl).
  now apply strip_fixed.
Qed.

(** X3.  Cleaning a cleaned text changes nothing. *)
Theorem clean_text_idempotent (text : str) :
  clean_text (clean_text text) = clean_text text.
Proof.
  set (t := clean_text text). unfold clean_text at 1.
  rewrite replace_newlines, newline_to_space_id.
  - apply strip_fixed. unfold t, clean_text. apply strip_trimmed.
  - unfold t, clean_text. rewrite replace_newlines.
    apply Forall_strip, newline_to_space_no_newline.
Qed.

(** ** Further properties of the classifier *)

Lemma lower_ascii s : forallb is_ascii s = true -> lower s = map ascii_lower s.
Proof. intros H. unfold lower. now rewrite H. Qed.

Lemma space_is_ascii : forallb is_ascii (u " ") = true.
Proof. vm_compute. reflexivity. Qed.

(** The text of an all-ASCII title and summary. *)
Lemma match_text_ascii title summary :
  forallb is_ascii title = true -> forallb is_ascii summary = true ->
  lower (title ++ u " " ++ summary)
  = map ascii_lower title ++ map ascii_lower (u " ") ++ map ascii_lower summary.
Proof.
  intros Ht Hs. rewrite lower_ascii.
  - now rewrite !map_app.
  - now rewrite !forallb_app, Ht, Hs, space_is_ascii.
Qed.

(** X4.  Matching ignores the case of ASCII letters: two all-ASCII inputs
    whose titles and whose summaries differ only in letter case get the
    same category. *)
Theorem classify_paper_ignores_ascii_case (title1 summary1 title2 summary2 : str) :
  forallb is_ascii title1 = true -> forallb is_ascii summary1 = true ->
  forallb is_ascii title2 = true -> forallb is_ascii summary2 = true ->
  map ascii_lower title1 = map ascii_lower title2 ->
  map ascii_lower summary1 = map ascii_lower summary2 ->
  classify_paper title1 summary1 = classify_paper title2 summary2.
Proof.
  intros Ht1 Hs1 Ht2 Hs2 Et Es. unfold classify_paper.
  rewrite (match_text_ascii title1 summary1 Ht1 Hs1).
  rewrite (match_text_ascii title2 summary2 Ht2 Hs2).
  now rewrite Et, Es.
Qed.

Lemma count_matches_le_length text keywords :
  (count_matches text keywords <= Z.of_nat (length keywords))%Z.
Proof. unfold count_matches. apply inj_le, filter_length_le. Qed.

(** X5.  The scoring loops never raise, and the score of a category lies
    between 0 and the number of its keywords: 16, 16 and 17. *)
Theorem scores_within_keyword_counts (text : str) :
  exists h a p,
    compute_scores text
    = Some [(HARDWARE, h); (ALGORITHMS, a); (APPLICATIONS, p)]
    /\ (0 <= h <= 16)%Z /\ (0 <= a <= 16)%Z /\ (0 <= p <= 17)%Z.
Proof.
  rewrite compute_scores_closed. unfold CATEGORIES. cbn [map].
  unfold counted. cbn [fst snd].
  eexists _, _, _. split; [reflexivity|].
  repeat split; try apply count_matches_nonneg;
    match goal with
    | |- (count_matches ?t ?k <= _)%Z =>
        pose proof (count_matches_le_length t k) as H;
        cbn [length] in H; lia
    end.
Qed.

(** X6.  The category returned has a greatest score: either the result is
    the fallback and every score is 0, or it is a configured category whose
    score is positive and not below the score of any category. *)
Theorem classify_paper_returns_a_greatest_score (title summary : str) :
  exists c scores,
    compute_scores (lower (title ++ u " " ++ summary)) = Some scores
    /\ classify_paper title summary = Some c
    /\ ((c = UNCATEGORIZED /\ forall c' v', In (c', v') scores -> v' = 0%Z)
        \/ exists v,
             In (c, v) scores /\ (0 < v)%Z
             /\ forall c' v', In (c', v') scores -> (v' <= v)%Z).
Proof.
  destruct (classify_paper_closed title summary) as (k & v & Hfm & Hc).
  fold (match_text title summary). set (text := match_text title summary) in *.
  exists (if (v =? 0)%Z then UNCATEGORIZED else k), (map (counted text) CATEGORIES).
  split; [apply compute_scores_closed|]. split; [exact Hc|].
  assert (Hnonneg : forall c' v', In (c', v') (map (counted text) CATEGORIES) ->
                      (0 <= v')%Z).
  { intros c' v' Hin. destruct (counted_in _ _ _ Hin) as (kws & _ & ->).
    apply count_matches_nonneg. }
  destruct (Z.eqb_spec v 0) as [Hz | Hnz].
  - left. split; [reflexivity|]. intros c' v' Hin.
    pose proof (first_max_bound _ _ _ _ _ Hfm Hin).
    pose proof (Hnonneg _ _ Hin). lia.
  - right. exists v. pose proof (first_max_in _ _ _ Hfm) as Hin.
    split; [exact Hin|]. split.
    + pose proof (Hnonneg _ _ Hin). lia.
    + intros c' v'. apply (first_max_bound _ _ _ _ _ Hfm).
Qed.

Lemma contains_app_r text extra kw :
  contains text kw = true -> contains (text ++ extra) kw = true.
Proof.
  rewrite !contains_spec. intros (pre & post & ->).
  exists pre, (post ++ extra). now rewrite <- !app_assoc.
Qed.

Lemma count_matches_mono text1 text2 keywords :
  (forall kw, contains text1 kw = true -> contains text2 kw = true) ->
  (count_matches text1 keywords <= count_matches text2 keywords)%Z.
Proof.
  intros H. induction keywords as [|kw keywords IH].
  - apply Z.le_refl.
  - rewrite !count_matches_cons. specialize (H kw).
    destruct (contains text1 kw).
    + rewrite H by reflexivity. lia.
    + destruct (contains text2 kw); lia.
Qed.

(** X7.  More text never lowers a score: for all-ASCII input, appending to
    the summary leaves every category with a score at least as great. *)
Theorem scores_grow_with_the_summary (title summary extra : str) :
  forallb is_ascii title = true -> forallb is_ascii summary = true ->
  forallb is_ascii extra = true ->
  exists before after,
    compute_scores (lower (title ++ u " " ++ summary)) = Some before
    /\ compute_scores (lower (title ++ u " " ++ (summary ++ extra))) = Some after
    /\ Forall2 (fun b a => fst b = fst a /\ (snd b <= snd a)%Z) before after.
Proof.
  intros Ht Hs He.
  assert (Hse : forallb is_ascii (summary ++ extra) = true)
    by now rewrite forallb_app, Hs, He.
  rewrite (match_text_ascii title summary Ht Hs).
  rewrite (match_text_ascii title (summary ++ extra) Ht Hse).
  rewrite map_app, !compute_scores_closed.
  set (text := map ascii_lower title ++ map ascii_lower (u " ")
               ++ map ascii_lower summary).
  replace (map ascii_lower title ++ map ascii_lower (u " ")
           ++ map ascii_lower summary ++ map ascii_lower extra)
    with (text ++ map ascii_lower extra)
    by (unfold text; now rewrite <- !app_assoc).
  eexists _, _. split; [reflexivity|]. split; [reflexivity|].
  induction CATEGORIES as [|[cat keywords] items IH]; constructor; [|exact IH].
  split; [reflexivity|]. cbn [counted fst snd].
  apply count_matches_mono. intros kw. apply contains_app_r.
Qed.

(** ** Further properties of the grouper and the renderer *)

(** X9.  The renderer reads a grouping only through the buckets of the
    four names of the display order, a missing name counting as an empty
    bucket: two groupings that agree there are rendered alike, so a bucket
    under any other key is never rendered. *)
Theorem render_categories_reads_display_order_only
    (paper_groups1 paper_groups2 : dict (list Result)) (md_content : str) :
  (forall c, In c display_order ->
     bucket_of paper_groups1 c = bucket_of paper_groups2 c) ->
  render_categories paper_groups1 display_order md_content
  = render_categories paper_groups2 display_order md_content.
Proof.
  intros Hsame. rewrite !render_categories_closed.
  rewrite (filter_ext_in
             (fun c => nonempty (bucket_of paper_groups1 c))
             (fun c => nonempty (bucket_of paper_groups2 c)))
    by (intros c Hc; now rewrite Hsame).
  rewrite (map_ext_in
             (fun c => section_of c (bucket_of paper_groups1 c))
             (fun c => section_of c (bucket_of paper_groups2 c)));
    [reflexivity|].
  intros c Hc. apply filter_In in Hc as [Hc _]. now rewrite Hsame.
Qed.

(** [main] on an input that is not empty, in closed form. *)
Lemma main_sections p results utc_now :
  main (p :: results) utc_now
  = Some (header utc_now
          ++ concat (map (fun c => section_of c (papers_of c (p :: results)))
                       (filter (fun c => nonempty (papers_of c (p :: results)))
                          display_order))).
Proof.
  rewrite main_closed, group_papers_closed. cbn [bind].
  rewrite render_categories_closed.
  rewrite (filter_ext_in
             (fun c => nonempty (bucket_of (grouping_of (p :: results)) c))
             (fun c => nonempty (papers_of c (p :: results)))).
  - rewrite (map_ext_in
               (fun c => section_of c (bucket_of (grouping_of (p :: results)) c))
               (fun c => section_of c (papers_of c (p :: results))));
      [reflexivity|].
    intros c Hc. apply filter_In in Hc as [Hc _].
    rewrite display_order_all in Hc. now rewrite bucket_of_grouping.
  - intros c Hc. rewrite display_order_all in Hc.
    now rewrite bucket_of_grouping.
Qed.

Lemma concat_skip_empty {A B} (f : A -> list B) (l : list A) :
  concat (map f (filter (fun c => nonempty (f c)) l)) = concat (map f l).
Proof.
  induction l as [|a l IH]; [reflexivity|].
  cbn [filter map concat]. destruct (f a) as [|b bs] eqn:E; cbn [nonempty].
  - exact IH.
  - cbn [map concat]. now rewrite E, IH.
Qed.

(** X11.  No paper is lost or repeated by the report: for an input that is
    not empty the document is the header followed by the sections of some
    categories, at least one, and the papers of these sections, read in
    document order, are a rearrangement of the input. *)
Theorem every_paper_is_rendered_once
    (results : list Result) (utc_now : datetime) :
  results <> [] ->
  exists categories,
    main results utc_now
    = Some (header utc_now
            ++ concat (map (fun c => section_of c (papers_of c results))
                         categories))
    /\ categories <> []
    /\ Permutation (concat (map (fun c => papers_of c results) categories))
         results.
Proof.
  intros Hne. destruct results as [|p results]; [congruence|].
  set (rs := p :: results) in *.
  exists (filter (fun c => nonempty (papers_of c rs)) display_order).
  split; [apply main_sections|].
  assert (Hperm : Permutation
                    (concat (map (fun c => papers_of c rs)
                               (filter (fun c => nonempty (papers_of c rs))
                                  display_order)))
                    rs).
  { rewrite (concat_skip_empty (fun c => papers_of c rs)), display_order_all.
    apply (concat_filter_Permutation assigned_to).
    - apply all_categories_NoDup.
    - intros q _.
      destruct (classify_paper_total (title q) (summary q)) as (c & Hc & Hin).
      exists c. split; [exact Hin|]. split; [now apply assigned_to_iff|].
      intros c' A. apply assigned_to_iff in A. congruence. }
  split; [|exact Hperm].
  intros Hnil. rewrite Hnil in Hperm. cbn [map concat] in Hperm.
  apply Permutation_nil in Hperm. discriminate Hperm.
Qed.

End Bot.

(** ** Concrete runs *)

(** Inputs that are all ASCII never reach the Unicode case mapping; a clock
    whose [strftime] echoes the format stands for the date library. *)
Definition ascii_only (s : str) : str := s.
Definition echo_format (_ : unit) (format : str) : str := format.

Definition paper_on_plasticity : Result unit :=
  {| title := u "A theory of plasticity";
     summary := u "We study" ++ [NL] ++ u "learning.";
     entry_id := u "http://arxiv.org/abs/0000.00001";
     published := tt;
     authors := map Build_Author [u "A"; u "B"; u "C"; u "D"] |}.

Definition paper_on_memristors : Result unit :=
  {| title := u "Memristor crossbar";
     summary := u "A device.";
     entry_id := u "http://arxiv.org/abs/0000.00002";
     published := tt;
     authors := map Build_Author [u "A"; u "B"] |}.

Ltac scores_bounded :=
  let H := fresh in
  intros ? ? H; cbn [In] in H;
  repeat (destruct H as [H | H]; [injection H as _ <-; lia|]);
  destruct H.

(** C2, on constructed texts with one keyword of each of two categories:
    "memristor snn" goes to the hardware category, "camera snn" to the
    algorithms category, "camera memristor" to the hardware category. *)
Lemma tie_goes_to_first_declared_examples :
  classify_paper ascii_only (u "memristor snn") (u "") = Some HARDWARE
  /\ classify_paper ascii_only (u "camera snn") (u "") = Some ALGORITHMS
  /\ classify_paper ascii_only (u "camera memristor") (u "") = Some HARDWARE.
Proof.
  split; [|split].
  - refine (proj2 (tie_goes_to_first_declared ascii_only
              (u "memristor snn") (u "")
              [(HARDWARE, 1); (ALGORITHMS, 1); (APPLICATIONS, 0)]%Z
              [] [] [(APPLICATIONS, 0%Z)] HARDWARE ALGORITHMS 1 _ _ _ _ _)).
    + vm_compute. reflexivity.
    + vm_compute. reflexivity.
    + scores_bounded.
    + scores_bounded.
    + lia.
  - refine (proj2 (tie_goes_to_first_declared ascii_only
              (u "camera snn") (u "")
              [(HARDWARE, 0); (ALGORITHMS, 1); (APPLICATIONS, 1)]%Z
              [(HARDWARE, 0%Z)] [] [] ALGORITHMS APPLICATIONS 1 _ _ _ _ _)).
    + vm_compute. reflexivity.
    + vm_compute. reflexivity.
    + scores_bounded.
    + scores_bounded.
    + lia.
  - refine (proj2 (tie_goes_to_first_declared ascii_only
              (u "camera memristor") (u "")
              [(HARDWARE, 1); (ALGORITHMS, 0); (APPLICATIONS, 1)]%Z
              [] [(ALGORITHMS, 0%Z)] [] HARDWARE APPLICATIONS 1 _ _ _ _ _)).
    + vm_compute. reflexivity.
    + vm_compute. reflexivity.
    + scores_bounded.
    + scores_bounded.
    + lia.
Defined.

(** C2 as stated fails when no keyword matches: on two empty fields all
    three categories tie at the greatest score, 0, the hardware category is
    the first of them, and the result is the fallback. *)
Lemma tie_at_score_zero_goes_to_fallback :
  compute_scores (lower ascii_only (u "" ++ u " " ++ u ""))
  = Some [(HARDWARE, 0); (ALGORITHMS, 0); (APPLICATIONS, 0)]%Z
  /\ classify_paper ascii_only (u "") (u "") = Some UNCATEGORIZED
  /\ ~ tie_break_as_stated ascii_only (u "") (u "").
Proof.
  split; [vm_compute; reflexivity|]. split; [vm_compute; reflexivity|].
  intros Hclaim.
  specialize (Hclaim [(HARDWARE, 0); (ALGORITHMS, 0); (APPLICATIONS, 0)]%Z
                [] [] [(APPLICATIONS, 0%Z)] HARDWARE ALGORITHMS 0%Z).
  assert (H : classify_paper ascii_only (u "") (u "") = Some HARDWARE).
  { apply Hclaim.
    - vm_compute. reflexivity.
    - vm_compute. reflexivity.
    - scores_bounded.
    - scores_bounded. }
  vm_compute in H. discriminate H.
Qed.

(** C6, on two papers: the paper on plasticity comes first in the input,
    the section of the hardware category comes first in the document, and
    the two categories without papers have no section. *)
Lemma one_section_per_nonempty_category_example :
  [paper_on_plasticity; paper_on_memristors] <> []
  /\ main ascii_only unit echo_format
       [paper_on_plasticity; paper_on_memristors] tt
     = Some (header unit echo_format tt
             ++ section_of unit echo_format HARDWARE [paper_on_memristors]
             ++ section_of unit echo_format ALGORITHMS [paper_on_plasticity]).
Proof.
  assert (Hne : [paper_on_plasticity; paper_on_memristors] <> [])
    by discriminate.
  split; [exact Hne|].
  rewrite (proj2 (proj2 (one_section_per_nonempty_category ascii_only
                           unit echo_format
                           [paper_on_plasticity; paper_on_memristors] tt Hne))).
  vm_compute. reflexivity.
Defined.

(** X2, on "a  b": without a newline, with a letter at each end. *)
Lemma clean_text_keeps_normalized_example :
  clean_text (u "a  b") = u "a  b".
Proof.
  apply clean_text_keeps_normalized.
  - vm_compute. repeat (constructor; [discriminate|]). constructor.
  - split.
    + intros c rest H. vm_compute in H. injection H as <- _.
      vm_compute. reflexivity.
    + intros c front H.
      assert (E : u "a  b" = u "a  " ++ [98%N]) by (vm_compute; reflexivity).
      rewrite E in H. apply app_inj_tail in H as [_ <-].
      vm_compute. reflexivity.
Defined.

(** X4, on a title and a summary written in two ways. *)
Lemma classify_paper_ignores_ascii_case_example :
  classify_paper ascii_only (u "SNN Camera") (u "A Test")
  = classify_paper ascii_only (u "snn CAMERA") (u "a tEST").
Proof.
  apply classify_paper_ignores_ascii_case; vm_compute; reflexivity.
Defined.

(** X7, on a summary that gains the keyword "snn". *)
Lemma scores_grow_with_the_summary_example :
  exists before after,
    compute_scores (lower ascii_only (u "memristor" ++ u " " ++ u "for"))
    = Some before
    /\ compute_scores
         (lower ascii_only (u "memristor" ++ u " " ++ (u "for" ++ u " snn")))
       = Some after
    /\ Forall2 (fun b a => fst b = fst a /\ (snd b <= snd a)%Z) before after.
Proof.
  apply scores_grow_with_the_summary; vm_compute; reflexivity.
Defined.

(** X9, on a grouping with a bucket under a name outside the display order
    and a grouping without it that has one more, empty, bucket. *)
Lemma render_categories_reads_display_order_only_example :
  render_categories unit echo_format
    [(HARDWARE, [paper_on_memristors]); (u "Other", [paper_on_plasticity])]
    display_order (u "# Report")
  = render_categories unit echo_format
      [(HARDWARE, [paper_on_memristors]); (APPLICATIONS, [])]
      display_order (u "# Report").
Proof.
  apply render_categories_reads_display_order_only.
  intros c Hc. unfold display_order in Hc. cbn [In] in Hc.
  destruct Hc as [<- | [<- | [<- | [<- | []]]]]; vm_compute; reflexivity.
Defined.

(** X11, on the two papers. *)
Lemma every_paper_is_rendered_once_example :
  exists categories,
    main ascii_only unit echo_format
      [paper_on_plasticity; paper_on_memristors] tt
    = Some (header unit echo_format tt
            ++ concat (map (fun c =>
                              section_of unit echo_format c
                                (papers_of ascii_only unit c
                                   [paper_on_plasticity; paper_on_memristors]))
                         categories))
    /\ categories <> []
    /\ Permutation
         (concat (map (fun c =>
                         papers_of ascii_only unit c
                           [paper_on_plasticity; paper_on_memristors])
                    categories))
         [paper_on_plasticity; paper_on_memristors].
Proof.
  apply every_paper_is_rendered_once. discriminate.
Defined.
